(** * OpenTPU character device driver (driver/src/opentpu.c)

    A shallow embedding of the four file operations of the driver
    ([dev_open], [dev_read], [dev_write], [dev_release]) over an explicit
    driver state, and the properties of the exclusive byte channel they
    implement.

    The driver keeps three pieces of static state: the [message] array of
    256 chars, the [messageSize] counter (a C [short]) and the [ioMutex].
    The user-copy primitives [copy_from_user] and [copy_to_user] belong to
    the Linux kernel, not to the driver: they are taken as an interface
    ([uaccess]) described by their documented contract, and two concrete
    kernels are given to run the driver on concrete inputs. *)

From Stdlib Require Import String ZArith List Bool Lia.
From Stdlib.Strings Require Import Byte.
Import ListNotations.

Local Open Scope Z_scope.

(** ** C integer types and conversions *)

Module CInt.

(** Value of [z] converted to an unsigned integer type of [w] bits. *)
Definition to_unsigned (w : Z) (z : Z) : Z := z mod 2 ^ w.

(** Value of [z] converted to a signed integer type of [w] bits
    (two's complement wrap-around, as gcc and clang define it). *)
Definition to_signed (w : Z) (z : Z) : Z :=
  (z + 2 ^ (w - 1)) mod 2 ^ w - 2 ^ (w - 1).

Definition to_short (z : Z) : Z := to_signed 16 z.
Definition to_int (z : Z) : Z := to_signed 32 z.
Definition to_ssize_t (z : Z) : Z := to_signed 64 z.
Definition to_ulong (z : Z) : Z := to_unsigned 64 z.

Definition INT_MAX : Z := 2 ^ 31 - 1.

Definition is_short (z : Z) : Prop := - 2 ^ 15 <= z < 2 ^ 15.

End CInt.
Import CInt.

(** errno values used by the driver (include/uapi/asm-generic/errno-base.h). *)
Definition EFAULT : Z := 14.
Definition EBUSY : Z := 16.

(** ** Memory *)

Definition byte : Type := Byte.byte.

(** Kernel memory seen from the address of [message]: offset [i] is the
    byte at [message + i].  Offsets [0 .. 255] are the array itself;
    larger offsets are whatever the linker placed behind it, which may be
    the other statics of the module.  The model keeps those bytes apart
    from [messageSize] and [ioMutex]: it is exact for copies of at most
    256 bytes, and of a longer copy it shows which offsets behind the
    array are stored to or loaded from, not what the program does next. *)
Definition kmem : Type := Z -> byte.

(** [static char message[256]]. *)
Definition MESSAGE_CAPACITY : Z := 256.

(** The [n] bytes found at [message], [message + 1], ... *)
Definition load (mem : kmem) (n : Z) : list byte :=
  map (fun i => mem (Z.of_nat i)) (seq 0 (Z.to_nat n)).

(** Memory after the bytes [l] have been stored from [message] on. *)
Definition store (mem : kmem) (l : list byte) : kmem :=
  fun i =>
    if (0 <=? i) && (i <? Z.of_nat (length l))
    then nth (Z.to_nat i) l x00
    else mem i.

(** [message[256] = {0}]. *)
Definition zeroed : kmem := fun _ => x00.

(** ** The kernel's user-copy interface (linux/uaccess.h)

    [copy_from_user (to, from, n)] and [copy_to_user (to, from, n)] return
    the number of bytes that could NOT be copied, zero on success.  The
    kernel side of every call the driver makes is [message]; the user side
    is the range of mapped bytes that starts at the pointer the caller
    passed, given as a list.  The laws are the part of the contract the
    driver relies on. *)
Record uaccess : Type := {
  copy_from_user : kmem -> list byte -> Z -> kmem * Z;
  copy_to_user : list byte -> kmem -> Z -> list byte * Z;
  (* a complete copy-in leaves the first [n] user bytes at [message] *)
  copy_from_user_done : forall mem from n,
    0 <= n -> snd (copy_from_user mem from n) = 0 ->
    load (fst (copy_from_user mem from n)) n = firstn (Z.to_nat n) from;
  (* never more bytes left over than were requested *)
  copy_to_user_bound : forall to mem n,
    0 <= n -> 0 <= snd (copy_to_user to mem n) <= n;
  (* a complete copy-out leaves the [n] bytes of [message] in front of the
     user range *)
  copy_to_user_done : forall to mem n,
    0 <= n -> snd (copy_to_user to mem n) = 0 ->
    firstn (Z.to_nat n) (fst (copy_to_user to mem n)) = load mem n;
  (* copying nothing succeeds and touches nothing *)
  copy_to_user_nothing : forall to mem, copy_to_user to mem 0 = (to, 0);
  (* sizes above INT_MAX are refused whole (check_copy_size, access_ok) *)
  copy_to_user_refused : forall to mem n,
    INT_MAX < n -> copy_to_user to mem n = (to, n)
}.

(** ** Driver state

    [static char message[256] = {0}; static short messageSize;
     static DEFINE_MUTEX(ioMutex);]
    [message] is the memory at and behind the array, so that a copy longer
    than the array is visible as a store at an offset of 256 or more.
    [ioMutex] is [true] while the mutex is locked. *)
Record driver : Type := {
  message : kmem;
  messageSize : Z;
  ioMutex : bool
}.

(** The state right after the module is loaded. *)
Definition loaded : driver :=
  {| message := zeroed; messageSize := 0; ioMutex := false |}.

(** [mutex_trylock] returns 1 if the mutex was acquired and 0 on
    contention; it never sleeps (linux/mutex.h). *)
Definition mutex_trylock (m : bool) : bool * Z :=
  if m then (m, 0) else (true, 1).

Definition mutex_unlock (m : bool) : bool := false.

(** ** The file operations *)

(** [static int dev_open(struct inode *inodep, struct file *filep)] *)
Definition dev_open (st : driver) : driver * Z :=
  let (m, acquired) := mutex_trylock (ioMutex st) in
  let st' :=
    {| message := message st; messageSize := messageSize st; ioMutex := m |} in
  if acquired =? 0 then (st', - EBUSY) else (st', 0).

(** [static ssize_t dev_read(struct file *filep, char *buffer, size_t len,
    loff_t *offset)].  The result is the new driver state, the caller's
    buffer after the call and the value returned.  [len] is not used by
    the body. *)
Definition dev_read (K : uaccess) (st : driver) (buffer : list byte) (len : Z)
  : driver * list byte * Z :=
  let (buffer', left) :=
    copy_to_user K buffer (message st) (to_ulong (messageSize st)) in
  let error_count := to_int left in
  if error_count =? 0 then
    ({| message := message st; messageSize := 0; ioMutex := ioMutex st |},
     buffer', 0)
  else
    (st, buffer', to_ssize_t (- EFAULT)).

(** [static ssize_t dev_write(struct file *filep, const char *buffer,
    size_t len, loff_t *offset)].  [copied_from_user] only selects which
    line is logged. *)
Definition dev_write (K : uaccess) (st : driver) (buffer : list byte) (len : Z)
  : driver * Z :=
  let (message', copied_from_user) :=
    copy_from_user K (message st) buffer len in
  ({| message := message'; messageSize := to_short len; ioMutex := ioMutex st |},
   to_ssize_t len).

(** [static int dev_release(struct inode *inodep, struct file *filep)] *)
Definition dev_release (st : driver) : driver * Z :=
  ({| message := message st; messageSize := messageSize st;
      ioMutex := mutex_unlock (ioMutex st) |}, 0).

(** What the spec calls a successful write and a successful read: the
    user copy behind the call left no byte uncopied. *)
Definition copy_in_fails (K : uaccess) (st : driver) (buffer : list byte)
  (len : Z) : bool :=
  negb (snd (copy_from_user K (message st) buffer len) =? 0).

Definition copy_out_fails (K : uaccess) (st : driver) (buffer : list byte)
  : bool :=
  negb (snd (copy_to_user K buffer (message st) (to_ulong (messageSize st)))
        =? 0).

(** Projections of the results. *)
Definition read_state (r : driver * list byte * Z) : driver := fst (fst r).
Definition read_buffer (r : driver * list byte * Z) : list byte := snd (fst r).
Definition read_ret (r : driver * list byte * Z) : Z := snd r.

(** ** Two concrete kernels

    [usercopy_from] and [usercopy_to] copy as many bytes as the user range
    has, and report the rest as not copied; a short copy-in pads the
    destination with zero bytes up to the requested size.  A size above
    INT_MAX is refused.  With [hardened] the size is also checked against
    the size of the kernel object ([message], 256 bytes) and a larger copy
    is refused whole; without it the copy runs past the end of the array. *)
Definition usercopy_refuses (hardened : bool) (n : Z) : bool :=
  (INT_MAX <? n) || (hardened && (MESSAGE_CAPACITY <? n)).

Definition usercopy_from (hardened : bool) (mem : kmem) (from : list byte)
  (n : Z) : kmem * Z :=
  if usercopy_refuses hardened n then (mem, n)
  else
    let k := Z.min n (Z.of_nat (length from)) in
    (store mem (firstn (Z.to_nat k) from ++ repeat x00 (Z.to_nat (n - k))),
     n - k).

Definition usercopy_to (hardened : bool) (to : list byte) (mem : kmem)
  (n : Z) : list byte * Z :=
  if usercopy_refuses hardened n then (to, n)
  else
    let k := Z.min n (Z.of_nat (length to)) in
    (load mem k ++ skipn (Z.to_nat k) to, n - k).

(** ** The driver behind the VFS

    The kernel calls [.open] for every open(2) of the device node and
    creates the open file only if it returns 0; [.read], [.write] and
    [.release] are called on an open file only, [.release] once, when the
    file is closed.  A call on a descriptor that names no open file fails
    with EBADF before it reaches the driver.  [opened] lists the sessions
    that have the device open; [acquirer] records the session whose open
    took [ioMutex]. *)
Definition session : Type := nat.

Definition EBADF : Z := 9.

Inductive syscall : Type :=
| sys_open (f : session)
| sys_read (f : session) (buffer : list byte) (len : Z)
| sys_write (f : session) (buffer : list byte) (len : Z)
| sys_close (f : session).

Record system : Type := {
  drv : driver;
  opened : list session;
  acquirer : option session
}.

Definition booted : system :=
  {| drv := loaded; opened := []; acquirer := None |}.

Definition caller (c : syscall) : session :=
  match c with
  | sys_open f | sys_read f _ _ | sys_write f _ _ | sys_close f => f
  end.

Definition is_open_call (c : syscall) : bool :=
  match c with sys_open _ => true | _ => false end.

Definition is_close_call (c : syscall) : bool :=
  match c with sys_close _ => true | _ => false end.

Inductive vfs_step (K : uaccess) : system -> syscall -> Z -> system -> Prop :=
| vfs_open_ok s f st' :
    ~ In f (opened s) ->
    dev_open (drv s) = (st', 0) ->
    vfs_step K s (sys_open f) 0
      {| drv := st'; opened := f :: opened s; acquirer := Some f |}
| vfs_open_err s f st' r :
    ~ In f (opened s) ->
    dev_open (drv s) = (st', r) -> r <> 0 ->
    vfs_step K s (sys_open f) r
      {| drv := st'; opened := opened s; acquirer := acquirer s |}
| vfs_read s f buffer len st' buffer' r :
    In f (opened s) ->
    dev_read K (drv s) buffer len = (st', buffer', r) ->
    vfs_step K s (sys_read f buffer len) r
      {| drv := st'; opened := opened s; acquirer := acquirer s |}
| vfs_write s f buffer len st' r :
    In f (opened s) ->
    dev_write K (drv s) buffer len = (st', r) ->
    vfs_step K s (sys_write f buffer len) r
      {| drv := st'; opened := opened s; acquirer := acquirer s |}
| vfs_close s f st' r :
    In f (opened s) ->
    dev_release (drv s) = (st', r) ->
    vfs_step K s (sys_close f) r
      {| drv := st'; opened := remove Nat.eq_dec f (opened s);
         acquirer := None |}
| vfs_badf s c :
    is_open_call c = false ->
    ~ In (caller c) (opened s) ->
    vfs_step K s c (- EBADF) s.

Inductive reachable (K : uaccess) : system -> Prop :=
| reach_boot : reachable K booted
| reach_step s c r s' :
    reachable K s -> vfs_step K s c r s' -> reachable K s'.

(** How [ioMutex] and the open sessions go together: the mutex is locked
    exactly while one session has the device open, and that session is the
    one whose open locked it. *)
Definition gate_tracks_sessions (s : system) : Prop :=
  if ioMutex (drv s)
  then exists f, opened s = [f] /\ acquirer s = Some f
  else opened s = [] /\ acquirer s = None.

(** The bytes of test payloads. *)
Definition hello : list byte := list_byte_of_string "hello".
Definition xs (n : nat) : list byte := repeat x78 n.

(** ** Runs of calls through the VFS *)

(** [vfs_run K s cs s']: the calls [cs], made one after the other from
    [s], end in [s']. *)
Inductive vfs_run (K : uaccess) : system -> list syscall -> system -> Prop :=
| run_done s : vfs_run K s [] s
| run_call s c r s1 cs s2 :
    vfs_step K s c r s1 -> vfs_run K s1 cs s2 -> vfs_run K s (c :: cs) s2.

(** A call that is not a write, or a write whose [len] fits [message]. *)
Definition len_fits (c : syscall) : Prop :=
  match c with
  | sys_write _ _ len => 0 <= len <= MESSAGE_CAPACITY
  | _ => True
  end.

(** ** Module load and unload

    [mod_init] and [mod_exit] consist of calls into the kernel's driver
    core.  What the kernel answers to the three calls that can fail is an
    input ([kernel_answers]); the calls made, in order and with their
    arguments, are an output (a list of [kcall]).  Pointers are their
    64-bit address.  Log lines are left out. *)
Definition DEVICE_NAME : string := "opentpu".
Definition CLASS_NAME : string := "opentpu".

(** include/linux/err.h *)
Definition MAX_ERRNO : Z := 4095.
Definition IS_ERR (p : Z) : bool := 2 ^ 64 - MAX_ERRNO <=? to_ulong p.
Definition PTR_ERR (p : Z) : Z := to_signed 64 p.
Definition IS_ERR_OR_NULL (p : Z) : bool := (p =? 0) || IS_ERR p.

(** include/linux/kdev_t.h; [dev_t] is an unsigned 32-bit integer. *)
Definition MINORBITS : Z := 20.
Definition MKDEV (ma mi : Z) : Z :=
  to_unsigned 32 (Z.lor (Z.shiftl ma MINORBITS) mi).

Definition is_pointer (p : Z) : Prop := 0 <= p < 2 ^ 64.

Inductive kcall : Type :=
| k_mutex_init
| k_mutex_destroy
| k_register_chrdev (major : Z) (name : string) (ret : Z)
| k_unregister_chrdev (major : Z) (name : string)
| k_class_create (name : string) (ret : Z)
| k_class_unregister (cls : Z)
| k_class_destroy (cls : Z)
| k_device_create (cls : Z) (devt : Z) (name : string) (ret : Z)
| k_device_destroy (cls : Z) (devt : Z).

Record kernel_answers : Type := {
  register_chrdev_ret : Z;   (* int: the major allocated, or -errno *)
  class_create_ret : Z;      (* struct class *, or ERR_PTR *)
  device_create_ret : Z      (* struct device *, or ERR_PTR *)
}.

(** The statics of the module: [majorNumber], [openTPUClass],
    [openTPUDevice], and the channel state the file operations work on. *)
Record module_state : Type := {
  majorNumber : Z;
  openTPUClass : Z;
  openTPUDevice : Z;
  channel : driver
}.

(** The image as the loader lays it out, before [mod_init] runs. *)
Definition image : module_state :=
  {| majorNumber := 0; openTPUClass := 0; openTPUDevice := 0;
     channel := loaded |}.

Definition mutex_init (m : bool) : bool := false.

(** [static int __init mod_init(void)] *)
Definition mod_init (A : kernel_answers) (m : module_state)
  : module_state * list kcall * Z :=
  let ch :=
    {| message := message (channel m); messageSize := messageSize (channel m);
       ioMutex := mutex_init (ioMutex (channel m)) |} in
  let major := register_chrdev_ret A in
  let t1 := [k_mutex_init; k_register_chrdev 0 DEVICE_NAME major] in
  if major <? 0 then
    ({| majorNumber := major; openTPUClass := openTPUClass m;
        openTPUDevice := openTPUDevice m; channel := ch |},
     t1, major)
  else
    let cls := class_create_ret A in
    let t2 := t1 ++ [k_class_create CLASS_NAME cls] in
    if IS_ERR cls then
      ({| majorNumber := major; openTPUClass := cls;
          openTPUDevice := openTPUDevice m; channel := ch |},
       t2 ++ [k_unregister_chrdev major DEVICE_NAME],
       to_int (PTR_ERR cls))
    else
      let dev := device_create_ret A in
      let t3 :=
        t2 ++ [k_device_create cls (MKDEV major 0) DEVICE_NAME dev] in
      let m3 :=
        {| majorNumber := major; openTPUClass := cls; openTPUDevice := dev;
           channel := ch |} in
      if IS_ERR dev then
        (m3,
         t3 ++ [k_class_destroy cls; k_unregister_chrdev major DEVICE_NAME],
         to_int (PTR_ERR dev))
      else (m3, t3, 0).

(** [static void __exit mod_exit(void)] *)
Definition mod_exit (m : module_state) : module_state * list kcall :=
  (m,
   [k_device_destroy (openTPUClass m) (MKDEV (majorNumber m) 0);
    k_class_unregister (openTPUClass m);
    k_class_destroy (openTPUClass m);
    k_unregister_chrdev (majorNumber m) DEVICE_NAME;
    k_mutex_destroy]).

Definition init_state (r : module_state * list kcall * Z) : module_state :=
  fst (fst r).
Definition init_calls (r : module_state * list kcall * Z) : list kcall :=
  snd (fst r).
Definition init_ret (r : module_state * list kcall * Z) : Z := snd r.

(** ** What the kernel holds for the module

    The char-device majors, classes and devices registered at a given
    moment, and the calls that named an object that was not registered
    when they were made ([stray]).  [class_destroy] is [class_unregister]
    behind a test for NULL and ERR_PTR; [device_destroy] looks the device
    up and does nothing when there is none. *)
Record registry : Type := {
  chrdevs : list Z;
  classes : list Z;
  devices : list (Z * Z);
  stray : list kcall
}.

Definition nothing_registered : registry :=
  {| chrdevs := []; classes := []; devices := []; stray := [] |}.

Definition devt_eq_dec (a b : Z * Z) : {a = b} + {a <> b}.
Proof. decide equality; apply Z.eq_dec. Defined.

Definition is_in (x : Z) (l : list Z) : bool :=
  if in_dec Z.eq_dec x l then true else false.

Definition release_class (r : registry) (c : kcall) (cls : Z) : registry :=
  if is_in cls (classes r) then
    {| chrdevs := chrdevs r; classes := remove Z.eq_dec cls (classes r);
       devices := devices r; stray := stray r |}
  else
    {| chrdevs := chrdevs r; classes := classes r; devices := devices r;
       stray := stray r ++ [c] |}.

Definition kernel_apply (r : registry) (c : kcall) : registry :=
  match c with
  | k_mutex_init | k_mutex_destroy => r
  | k_register_chrdev major _ ret =>
      if ret <? 0 then r
      else
        {| chrdevs := (if major =? 0 then ret else major) :: chrdevs r;
           classes := classes r; devices := devices r; stray := stray r |}
  | k_unregister_chrdev major _ =>
      if is_in major (chrdevs r) then
        {| chrdevs := remove Z.eq_dec major (chrdevs r);
           classes := classes r; devices := devices r; stray := stray r |}
      else
        {| chrdevs := chrdevs r; classes := classes r; devices := devices r;
           stray := stray r ++ [c] |}
  | k_class_create _ ret =>
      if IS_ERR ret then r
      else
        {| chrdevs := chrdevs r; classes := ret :: classes r;
           devices := devices r; stray := stray r |}
  | k_class_unregister cls => release_class r c cls
  | k_class_destroy cls =>
      if IS_ERR_OR_NULL cls then r else release_class r c cls
  | k_device_create cls devt _ ret =>
      if IS_ERR ret then r
      else
        {| chrdevs := chrdevs r; classes := classes r;
           devices := (cls, devt) :: devices r; stray := stray r |}
  | k_device_destroy cls devt =>
      {| chrdevs := chrdevs r; classes := classes r;
         devices := remove devt_eq_dec (cls, devt) (devices r);
         stray := stray r |}
  end.

Definition replay (r : registry) (cs : list kcall) : registry :=
  fold_left kernel_apply cs r.

(** * Facts about the conversions *)

Lemma to_signed_id (w z : Z) :
  0 < w -> - 2 ^ (w - 1) <= z < 2 ^ (w - 1) -> to_signed w z = z.
Proof.
  intros Hw Hz. unfold to_signed.
  assert (E : 2 ^ w = 2 * 2 ^ (w - 1)).
  { replace w with (Z.succ (w - 1)) at 1 by lia.
    rewrite Z.pow_succ_r by lia. reflexivity. }
  rewrite Z.mod_small by lia. lia.
Qed.

Lemma to_short_id (z : Z) : is_short z -> to_short z = z.
Proof. intros H. apply to_signed_id; [lia | exact H]. Qed.

Lemma to_short_is_short (z : Z) : is_short (to_short z).
Proof.
  unfold is_short, to_short, to_signed.
  change (2 ^ (16 - 1)) with 32768. change (2 ^ 15) with 32768.
  change (2 ^ 16) with 65536.
  pose proof (Z.mod_pos_bound (z + 32768) 65536). lia.
Qed.

Lemma to_int_id (z : Z) : - 2 ^ 31 <= z < 2 ^ 31 -> to_int z = z.
Proof. intros H. apply to_signed_id; [lia | exact H]. Qed.

Lemma to_ulong_nonneg (z : Z) : 0 <= z < 2 ^ 64 -> to_ulong z = z.
Proof. intros H. unfold to_ulong, to_unsigned. apply Z.mod_small. exact H. Qed.

(** A negative [short] passed where an [unsigned long] is expected. *)
Lemma to_ulong_negative (z : Z) :
  - 2 ^ 15 <= z < 0 -> to_ulong z = 2 ^ 64 + z.
Proof.
  intros H. unfold to_ulong, to_unsigned.
  symmetry. apply Z.mod_unique with (q := -1); lia.
Qed.

(** ... and the low 32 bits of that value, read back as an [int]. *)
Lemma to_int_of_wrapped_short (z : Z) :
  - 2 ^ 15 <= z < 0 -> to_int (2 ^ 64 + z) = z.
Proof.
  intros H. unfold to_int, to_signed.
  change (2 ^ (32 - 1)) with 2147483648.
  change (2 ^ 32) with 4294967296.
  change (2 ^ 64) with (4294967296 * 4294967296).
  change (2 ^ 15) with 32768 in H.
  replace (4294967296 * 4294967296 + z + 2147483648)
    with (z + 2147483648 + 4294967296 * 4294967296) by lia.
  rewrite Z.mod_add by lia. rewrite Z.mod_small by lia. lia.
Qed.

(** * Facts about memory *)

Lemma load_length (mem : kmem) (n : Z) : length (load mem n) = Z.to_nat n.
Proof. unfold load. rewrite length_map, length_seq. reflexivity. Qed.

Lemma load_store (mem : kmem) (l : list byte) :
  load (store mem l) (Z.of_nat (length l)) = l.
Proof.
  apply nth_error_ext. intros k. unfold load.
  rewrite nth_error_map, Nat2Z.id.
  destruct (Nat.lt_ge_cases k (length l)) as [Hk | Hk].
  - rewrite nth_error_seq, (proj2 (Nat.ltb_lt _ _) Hk). simpl.
    unfold store.
    replace ((0 <=? Z.of_nat k) && (Z.of_nat k <? Z.of_nat (length l)))
      with true.
    + rewrite Nat2Z.id. symmetry. apply nth_error_nth'. exact Hk.
    + symmetry. apply andb_true_iff. split.
      * apply Z.leb_le. lia.
      * apply Z.ltb_lt. lia.
  - rewrite (proj2 (nth_error_None _ _)) by (rewrite length_seq; exact Hk).
    simpl. symmetry. apply nth_error_None. exact Hk.
Qed.

(** * The concrete kernels satisfy the user-copy contract *)

Section Usercopy.

Variable hardened : bool.

Lemma usercopy_refuses_small (n : Z) :
  0 <= n <= 0 -> usercopy_refuses hardened n = false.
Proof.
  intros Hn. assert (n = 0) by lia. subst n.
  unfold usercopy_refuses. destruct hardened; reflexivity.
Qed.

Lemma usercopy_from_done (mem : kmem) (from : list byte) (n : Z) :
  0 <= n -> snd (usercopy_from hardened mem from n) = 0 ->
  load (fst (usercopy_from hardened mem from n)) n = firstn (Z.to_nat n) from.
Proof.
  intros Hn. unfold usercopy_from.
  destruct (usercopy_refuses hardened n) eqn:R; cbn [fst snd]; intros E.
  - subst n. rewrite usercopy_refuses_small in R by lia. discriminate.
  - assert (Hk : Z.min n (Z.of_nat (length from)) = n) by lia.
    rewrite Hk, Z.sub_diag. cbn [Z.to_nat repeat]. rewrite app_nil_r.
    assert (L : Z.of_nat (length (firstn (Z.to_nat n) from)) = n).
    { rewrite length_firstn. lia. }
    rewrite <- L at 2. apply load_store.
Qed.

Lemma usercopy_to_bound (to : list byte) (mem : kmem) (n : Z) :
  0 <= n -> 0 <= snd (usercopy_to hardened to mem n) <= n.
Proof.
  intros Hn. unfold usercopy_to.
  destruct (usercopy_refuses hardened n); cbn [snd]; lia.
Qed.

Lemma usercopy_to_done (to : list byte) (mem : kmem) (n : Z) :
  0 <= n -> snd (usercopy_to hardened to mem n) = 0 ->
  firstn (Z.to_nat n) (fst (usercopy_to hardened to mem n)) = load mem n.
Proof.
  intros Hn. unfold usercopy_to.
  destruct (usercopy_refuses hardened n) eqn:R; cbn [fst snd]; intros E.
  - subst n. rewrite usercopy_refuses_small in R by lia. discriminate.
  - assert (Hk : Z.min n (Z.of_nat (length to)) = n) by lia.
    rewrite Hk. rewrite <- (load_length mem n) at 1.
    rewrite firstn_app, firstn_all, Nat.sub_diag. cbn [firstn].
    apply app_nil_r.
Qed.

Lemma usercopy_to_nothing (to : list byte) (mem : kmem) :
  usercopy_to hardened to mem 0 = (to, 0).
Proof.
  unfold usercopy_to. rewrite usercopy_refuses_small by lia.
  rewrite Z.min_l by lia. reflexivity.
Qed.

Lemma usercopy_to_refused (to : list byte) (mem : kmem) (n : Z) :
  INT_MAX < n -> usercopy_to hardened to mem n = (to, n).
Proof.
  intros Hn. unfold usercopy_to, usercopy_refuses.
  rewrite (proj2 (Z.ltb_lt _ _) Hn). reflexivity.
Qed.

(** The kernel built from the two copy routines. *)
Definition kernel : uaccess :=
  {| copy_from_user := usercopy_from hardened;
     copy_to_user := usercopy_to hardened;
     copy_from_user_done := usercopy_from_done;
     copy_to_user_bound := usercopy_to_bound;
     copy_to_user_done := usercopy_to_done;
     copy_to_user_nothing := usercopy_to_nothing;
     copy_to_user_refused := usercopy_to_refused |}.

End Usercopy.

(** A kernel whose user copy does not know the size of [message] ... *)
Definition plain_kernel : uaccess := kernel false.
(** ... and one that checks it (hardened usercopy). *)
Definition hardened_kernel : uaccess := kernel true.

(** * The file operations, one equation each *)

Lemma dev_open_held (st : driver) :
  ioMutex st = true -> dev_open st = (st, - EBUSY).
Proof. intros H. destruct st as [m n g]. cbn in H. subst g. reflexivity. Qed.

Lemma dev_open_free (st : driver) :
  ioMutex st = false ->
  dev_open st =
    ({| message := message st; messageSize := messageSize st;
        ioMutex := true |}, 0).
Proof. intros H. unfold dev_open. rewrite H. reflexivity. Qed.

Lemma dev_write_eq (K : uaccess) (st : driver) (buffer : list byte) (len : Z) :
  dev_write K st buffer len =
    ({| message := fst (copy_from_user K (message st) buffer len);
        messageSize := to_short len;
        ioMutex := ioMutex st |}, to_ssize_t len).
Proof.
  unfold dev_write.
  destruct (copy_from_user K (message st) buffer len). reflexivity.
Qed.

Lemma dev_read_eq (K : uaccess) (st : driver) (buffer : list byte) (len : Z) :
  dev_read K st buffer len =
    let c := copy_to_user K buffer (message st) (to_ulong (messageSize st)) in
    if to_int (snd c) =? 0 then
      ({| message := message st; messageSize := 0; ioMutex := ioMutex st |},
       fst c, 0)
    else (st, fst c, to_ssize_t (- EFAULT)).
Proof.
  unfold dev_read.
  destruct (copy_to_user K buffer (message st) (to_ulong (messageSize st))).
  reflexivity.
Qed.

(** [error_count] is an [int] while [copy_to_user] returns an
    [unsigned long]; for the sizes a [short] can hold the narrowing loses
    nothing. *)
Lemma error_count_exact (K : uaccess) (st : driver) (buffer : list byte) :
  is_short (messageSize st) ->
  let left :=
    snd (copy_to_user K buffer (message st) (to_ulong (messageSize st))) in
  to_int left = 0 <-> left = 0.
Proof.
  intros Hs. cbv zeta. unfold is_short in Hs.
  destruct (Z.neg_nonneg_cases (messageSize st)) as [Hneg | Hpos].
  - rewrite to_ulong_negative by lia.
    rewrite copy_to_user_refused by (unfold INT_MAX; lia).
    cbn [snd]. rewrite to_int_of_wrapped_short by lia. lia.
  - rewrite to_ulong_nonneg by lia.
    pose proof (copy_to_user_bound K buffer (message st) (messageSize st) Hpos)
      as B.
    rewrite to_int_id by lia. reflexivity.
Qed.

Lemma dev_read_ok (K : uaccess) (st : driver) (buffer : list byte) (len : Z) :
  is_short (messageSize st) ->
  copy_out_fails K st buffer = false ->
  dev_read K st buffer len =
    ({| message := message st; messageSize := 0; ioMutex := ioMutex st |},
     fst (copy_to_user K buffer (message st) (to_ulong (messageSize st))), 0).
Proof.
  intros Hs Hc. rewrite dev_read_eq. cbv zeta.
  unfold copy_out_fails in Hc. apply negb_false_iff, Z.eqb_eq in Hc.
  rewrite (proj2 (error_count_exact K st buffer Hs) Hc). reflexivity.
Qed.

Lemma dev_read_fault (K : uaccess) (st : driver) (buffer : list byte) (len : Z) :
  is_short (messageSize st) ->
  copy_out_fails K st buffer = true ->
  dev_read K st buffer len =
    (st, fst (copy_to_user K buffer (message st) (to_ulong (messageSize st))),
     - EFAULT).
Proof.
  intros Hs Hc. rewrite dev_read_eq. cbv zeta.
  unfold copy_out_fails in Hc. apply negb_true_iff, Z.eqb_neq in Hc.
  pose proof (error_count_exact K st buffer Hs) as X. cbv zeta in X.
  destruct (Z.eqb_spec
    (to_int (snd (copy_to_user K buffer (message st)
                    (to_ulong (messageSize st))))) 0) as [E | E].
  - exfalso. apply Hc, X, E.
  - reflexivity.
Qed.

(** A message of at most 256 bytes, written whole and read whole, comes
    back as it was: the combined effect of a complete copy-in and a
    complete copy-out. *)
Lemma write_read_bytes (K : uaccess) (st : driver) (m rest buffer : list byte)
  (len : Z) :
  Z.of_nat (length m) <= MESSAGE_CAPACITY ->
  let n := Z.of_nat (length m) in
  let st1 := fst (dev_write K st (m ++ rest) n) in
  copy_in_fails K st (m ++ rest) n = false ->
  copy_out_fails K st1 buffer = false ->
  dev_read K st1 buffer len =
    ({| message := message st1; messageSize := 0; ioMutex := ioMutex st |},
     read_buffer (dev_read K st1 buffer len), 0)
  /\ firstn (length m) (read_buffer (dev_read K st1 buffer len)) = m
  /\ messageSize st1 = n.
Proof.
  intros Hm n st1 Hin Hout.
  unfold MESSAGE_CAPACITY in Hm.
  assert (Hsz : messageSize st1 = n).
  { unfold st1. rewrite dev_write_eq. cbn [fst messageSize].
    apply to_short_id. unfold is_short. fold n. lia. }
  assert (Hs : is_short (messageSize st1)).
  { rewrite Hsz. unfold is_short. fold n. lia. }
  assert (Hg : ioMutex st1 = ioMutex st).
  { unfold st1. rewrite dev_write_eq. reflexivity. }
  assert (Hmem : message st1 = fst (copy_from_user K (message st) (m ++ rest) n)).
  { unfold st1. rewrite dev_write_eq. reflexivity. }
  rewrite (dev_read_ok K st1 buffer len Hs Hout).
  unfold read_buffer. cbn [fst snd]. rewrite Hg.
  split; [reflexivity | split; [| exact Hsz]].
  unfold copy_out_fails in Hout. apply negb_false_iff, Z.eqb_eq in Hout.
  rewrite Hsz, to_ulong_nonneg in Hout |- * by (fold n; lia).
  pose proof (copy_to_user_done K buffer (message st1) n ltac:(lia) Hout) as D.
  unfold n in D at 1. rewrite Nat2Z.id in D. rewrite D.
  unfold copy_in_fails in Hin. apply negb_false_iff, Z.eqb_eq in Hin.
  pose proof (copy_from_user_done K (message st) (m ++ rest) n ltac:(lia) Hin)
    as C.
  rewrite Hmem, C.
  unfold n. rewrite Nat2Z.id, firstn_app, firstn_all, Nat.sub_diag.
  cbn [firstn]. apply app_nil_r.
Qed.

(** A read whose copy-out is complete moved [messageSize] bytes: with a
    negative [messageSize] the size handed to [copy_to_user] is refused. *)
Lemma copy_out_complete_nonneg (K : uaccess) (st : driver) (buffer : list byte) :
  is_short (messageSize st) ->
  copy_out_fails K st buffer = false ->
  0 <= messageSize st.
Proof.
  intros Hs Hc. unfold is_short in Hs.
  destruct (Z.neg_nonneg_cases (messageSize st)) as [Hneg | Hpos]; [| exact Hpos].
  exfalso. unfold copy_out_fails in Hc.
  apply negb_false_iff, Z.eqb_eq in Hc.
  rewrite to_ulong_negative in Hc by lia.
  rewrite copy_to_user_refused in Hc by (unfold INT_MAX; lia).
  cbn [snd] in Hc. lia.
Qed.

Lemma dev_read_delivers (K : uaccess) (st : driver) (buffer : list byte)
  (len : Z) :
  is_short (messageSize st) ->
  copy_out_fails K st buffer = false ->
  firstn (Z.to_nat (messageSize st)) (read_buffer (dev_read K st buffer len))
  = load (message st) (messageSize st).
Proof.
  intros Hs Hc.
  pose proof (copy_out_complete_nonneg K st buffer Hs Hc) as Hpos.
  rewrite (dev_read_ok K st buffer len Hs Hc). unfold read_buffer. cbn [fst snd].
  unfold copy_out_fails in Hc. apply negb_false_iff, Z.eqb_eq in Hc.
  unfold is_short in Hs.
  rewrite to_ulong_nonneg in Hc |- * by lia.
  apply copy_to_user_done; assumption.
Qed.

(** * The session gate *)

(** C4.  An open fails with EBUSY exactly when [ioMutex] is locked; it then
    returns at once and leaves the whole driver state as it was.  With the
    mutex unlocked the open returns 0 and locks it, and this is the case
    right after a release, whatever the state released. *)
Theorem dev_open_busy_iff_held (st : driver) :
  (snd (dev_open st) = - EBUSY <-> ioMutex st = true)
  /\ (ioMutex st = true -> dev_open st = (st, - EBUSY))
  /\ (ioMutex st = false ->
      snd (dev_open st) = 0 /\ ioMutex (fst (dev_open st)) = true)
  /\ snd (dev_open (fst (dev_release st))) = 0
  /\ ioMutex (fst (dev_open (fst (dev_release st)))) = true.
Proof.
  repeat split.
  - destruct (ioMutex st) eqn:G; [reflexivity |].
    rewrite (dev_open_free st G). cbn [snd]. discriminate.
  - intros G. rewrite (dev_open_held st G). reflexivity.
  - apply dev_open_held.
  - rewrite (dev_open_free st H). reflexivity.
  - rewrite (dev_open_free st H). reflexivity.
Qed.

(** * The message slot *)

(** C5.  When the copy to the caller leaves bytes uncopied, the read
    returns -EFAULT and the driver state, [messageSize] included, is the
    one before the call. *)
Theorem dev_read_fault_keeps_size (K : uaccess) (st : driver)
  (buffer : list byte) (len : Z) :
  is_short (messageSize st) ->
  copy_out_fails K st buffer = true ->
  read_ret (dev_read K st buffer len) = - EFAULT
  /\ read_state (dev_read K st buffer len) = st
  /\ messageSize (read_state (dev_read K st buffer len)) = messageSize st.
Proof.
  intros Hs Hc. rewrite (dev_read_fault K st buffer len Hs Hc).
  repeat split.
Qed.

Lemma dev_read_fault_keeps_size_witness :
  read_ret (dev_read plain_kernel (fst (dev_write plain_kernel loaded hello 5))
              (xs 2) 2) = - EFAULT
  /\ read_state (dev_read plain_kernel
                   (fst (dev_write plain_kernel loaded hello 5)) (xs 2) 2)
     = fst (dev_write plain_kernel loaded hello 5)
  /\ messageSize (read_state (dev_read plain_kernel
                   (fst (dev_write plain_kernel loaded hello 5)) (xs 2) 2))
     = messageSize (fst (dev_write plain_kernel loaded hello 5)).
Proof.
  apply (dev_read_fault_keeps_size plain_kernel
           (fst (dev_write plain_kernel loaded hello 5)) (xs 2) 2).
  - vm_compute. split; [discriminate | reflexivity].
  - vm_compute. reflexivity.
Defined.

(** X6.  A message [m] of at most 256 bytes that was written whole is
    delivered whole by the next read whose copy-out is complete: the first
    [length m] bytes of the caller's buffer are [m].  That read sets
    [messageSize] to 0, so the read after it copies nothing, leaves the
    caller's buffer as it was and returns 0, which is not an error. *)
Theorem write_read_then_empty (K : uaccess) (st : driver)
  (m rest buffer buffer2 : list byte) (len len2 : Z) :
  Z.of_nat (length m) <= MESSAGE_CAPACITY ->
  copy_in_fails K st (m ++ rest) (Z.of_nat (length m)) = false ->
  copy_out_fails K
    (fst (dev_write K st (m ++ rest) (Z.of_nat (length m)))) buffer = false ->
  let st1 := fst (dev_write K st (m ++ rest) (Z.of_nat (length m))) in
  let r := dev_read K st1 buffer len in
  messageSize st1 = Z.of_nat (length m)
  /\ firstn (length m) (read_buffer r) = m
  /\ read_ret r = 0
  /\ messageSize (read_state r) = 0
  /\ dev_read K (read_state r) buffer2 len2 = (read_state r, buffer2, 0).
Proof.
  intros Hm Hin Hout st1 r.
  destruct (write_read_bytes K st m rest buffer len Hm Hin Hout)
    as (E & D & S).
  fold st1 in E, D, S. fold r in D.
  split; [exact S | split; [exact D |]].
  unfold r. rewrite E. unfold read_ret, read_state. cbn [fst snd messageSize].
  repeat split.
  rewrite dev_read_eq. cbn [message messageSize ioMutex].
  change (to_ulong 0) with 0. rewrite copy_to_user_nothing.
  reflexivity.
Qed.

Lemma write_read_then_empty_witness :
  let st1 := fst (dev_write plain_kernel loaded (hello ++ []) 5) in
  let r := dev_read plain_kernel st1 (xs 8) 8 in
  messageSize st1 = 5
  /\ firstn 5 (read_buffer r) = hello
  /\ read_ret r = 0
  /\ messageSize (read_state r) = 0
  /\ dev_read plain_kernel (read_state r) (xs 4) 4 = (read_state r, xs 4, 0).
Proof.
  apply (write_read_then_empty plain_kernel loaded hello [] (xs 8) (xs 4) 8 4).
  - vm_compute. discriminate.
  - vm_compute. reflexivity.
  - vm_compute. reflexivity.
Defined.



(** C10.  Neither [dev_open] nor [dev_release] touches [message] or
    [messageSize].  So a message of at most 256 bytes written whole in one
    session and not read there is what the first read of the next session
    delivers: open, write, release, open (which returns 0), read. *)
Theorem open_release_keep_message (K : uaccess) (st : driver)
  (m rest buffer : list byte) (len : Z) :
  Z.of_nat (length m) <= MESSAGE_CAPACITY ->
  copy_in_fails K (fst (dev_open st)) (m ++ rest) (Z.of_nat (length m))
    = false ->
  copy_out_fails K
    (fst (dev_open (fst (dev_release
       (fst (dev_write K (fst (dev_open st)) (m ++ rest)
               (Z.of_nat (length m)))))))) buffer = false ->
  let n := Z.of_nat (length m) in
  let written := fst (dev_write K (fst (dev_open st)) (m ++ rest) n) in
  let reopened := dev_open (fst (dev_release written)) in
  (forall s : driver,
     message (fst (dev_open s)) = message s
     /\ messageSize (fst (dev_open s)) = messageSize s)
  /\ (forall s : driver,
       message (fst (dev_release s)) = message s
       /\ messageSize (fst (dev_release s)) = messageSize s)
  /\ snd reopened = 0
  /\ message (fst reopened) = message written
  /\ messageSize (fst reopened) = n
  /\ firstn (length m) (read_buffer (dev_read K (fst reopened) buffer len)) = m.
Proof.
  intros Hm Hin Hout n written reopened.
  change (copy_out_fails K (fst (dev_open (fst (dev_release written)))) buffer
          = false) in Hout.
  assert (Hopen : forall s,
            message (fst (dev_open s)) = message s
            /\ messageSize (fst (dev_open s)) = messageSize s).
  { intros s. unfold dev_open.
    destruct (mutex_trylock (ioMutex s)) as [g a].
    destruct (a =? 0); split; reflexivity. }
  assert (Hsz : messageSize written = n).
  { unfold written. rewrite dev_write_eq. cbn [fst messageSize].
    apply to_short_id. unfold is_short, MESSAGE_CAPACITY in *. fold n. lia. }
  assert (Hre : dev_open (fst (dev_release written)) =
                ({| message := message written; messageSize := n;
                    ioMutex := true |}, 0)).
  { rewrite dev_open_free by reflexivity. cbn [dev_release fst message
      messageSize]. rewrite Hsz. reflexivity. }
  split; [exact Hopen |].
  split; [intros s; split; reflexivity |].
  unfold reopened. rewrite Hre. cbn [fst snd message messageSize].
  repeat split.
  rewrite Hre in Hout. cbn [fst] in Hout.
  set (st4 := {| message := message written; messageSize := n;
                 ioMutex := true |}) in *.
  assert (Hs : is_short (messageSize st4)).
  { cbn. unfold is_short, MESSAGE_CAPACITY in *. fold n. lia. }
  pose proof (dev_read_delivers K st4 buffer len Hs Hout) as D.
  cbn [st4 messageSize message] in D. unfold n in D at 1.
  rewrite Nat2Z.id in D. rewrite D.
  unfold copy_in_fails in Hin. apply negb_false_iff, Z.eqb_eq in Hin.
  unfold written. rewrite dev_write_eq. cbn [fst message].
  rewrite (copy_from_user_done K _ (m ++ rest) n ltac:(lia) Hin).
  unfold n. rewrite Nat2Z.id, firstn_app, firstn_all, Nat.sub_diag.
  cbn [firstn]. apply app_nil_r.
Qed.

Lemma open_release_keep_message_witness :
  let written :=
    fst (dev_write plain_kernel (fst (dev_open loaded)) (hello ++ []) 5) in
  let reopened := dev_open (fst (dev_release written)) in
  (forall s : driver,
     message (fst (dev_open s)) = message s
     /\ messageSize (fst (dev_open s)) = messageSize s)
  /\ (forall s : driver,
       message (fst (dev_release s)) = message s
       /\ messageSize (fst (dev_release s)) = messageSize s)
  /\ snd reopened = 0
  /\ message (fst reopened) = message written
  /\ messageSize (fst reopened) = 5
  /\ firstn 5 (read_buffer (dev_read plain_kernel (fst reopened) (xs 8) 8))
     = hello.
Proof.
  apply (open_release_keep_message plain_kernel loaded hello [] (xs 8) 8).
  - vm_compute. discriminate.
  - vm_compute. reflexivity.
  - vm_compute. reflexivity.
Defined.

(** C7 as written fails: after write("hello") the read hands over the five
    bytes but returns 0, not 5; and with [len = 2] it still copies five. *)
Lemma read_after_hello_returns_zero :
  let st1 := fst (dev_write plain_kernel (fst (dev_open loaded)) hello 5) in
  copy_in_fails plain_kernel (fst (dev_open loaded)) hello 5 = false
  /\ copy_out_fails plain_kernel st1 (xs 8) = false
  /\ read_ret (dev_read plain_kernel st1 (xs 8) 8) = 0
  /\ read_ret (dev_read plain_kernel st1 (xs 8) 8) <> 5
  /\ firstn 5 (read_buffer (dev_read plain_kernel st1 (xs 8) 2)) = hello.
Proof. vm_compute. repeat split. discriminate. Qed.

(** C7, amended.  A read whose copy-out is complete returns 0, not a
    count, after it has copied the [messageSize] bytes of [message] to the
    front of the caller's buffer; when those bytes are a "hello" that was
    written whole, the caller gets the five bytes of "hello". *)
Theorem dev_read_returns_zero (K : uaccess) (st : driver)
  (buffer : list byte) (len : Z) :
  is_short (messageSize st) ->
  copy_out_fails K st buffer = false ->
  read_ret (dev_read K st buffer len) = 0
  /\ firstn (Z.to_nat (messageSize st)) (read_buffer (dev_read K st buffer len))
     = load (message st) (messageSize st)
  /\ (forall (st0 : driver) (rest : list byte),
        st = fst (dev_write K st0 (hello ++ rest) 5) ->
        copy_in_fails K st0 (hello ++ rest) 5 = false ->
        firstn 5 (read_buffer (dev_read K st buffer len)) = hello).
Proof.
  intros Hs Hc. split; [| split].
  - rewrite (dev_read_ok K st buffer len Hs Hc). reflexivity.
  - apply dev_read_delivers; assumption.
  - intros st0 rest E Hin. subst st.
    apply (write_read_bytes K st0 hello rest buffer len);
      [vm_compute; discriminate | exact Hin | exact Hc].
Qed.

Lemma dev_read_returns_zero_witness :
  read_ret (dev_read plain_kernel
              (fst (dev_write plain_kernel loaded (hello ++ []) 5)) (xs 8) 8) = 0
  /\ firstn 5 (read_buffer (dev_read plain_kernel
                 (fst (dev_write plain_kernel loaded (hello ++ []) 5))
                 (xs 8) 8)) = hello.
Proof.
  destruct (dev_read_returns_zero plain_kernel
              (fst (dev_write plain_kernel loaded (hello ++ []) 5)) (xs 8) 8)
    as (R & _ & H).
  - vm_compute. split; [discriminate | reflexivity].
  - vm_compute. reflexivity.
  - split; [exact R | apply (H loaded []); vm_compute; reflexivity].
Defined.

(** * Where the driver leaves the contract *)

(** C3.  Write 300 bytes, then read.  On every kernel [messageSize] is 300
    after the write, so the read asks [copy_to_user] for 300 bytes, not for
    the 256 that [message] holds: if the copy-out is complete the caller is
    handed the 300 bytes found at [message] and behind it, and if it is not
    the read returns -EFAULT and the slot is left as it was.  On the kernel
    that does not check the object size the read returns 0 after copying
    300 bytes; on the hardened kernel the write stored nothing and the
    read returns -EFAULT.  In neither case does the read deliver the first
    256 bytes of the message and no more. *)
Theorem write_300_read_not_capped (K : uaccess) (st : driver)
  (buffer : list byte) (len : Z) :
  let st1 := fst (dev_write K st (xs 300) 300) in
  let p1 := fst (dev_write plain_kernel loaded (xs 300) 300) in
  let h1 := fst (dev_write hardened_kernel loaded (xs 300) 300) in
  messageSize st1 = 300
  /\ to_ulong (messageSize st1) = 300
  /\ (copy_out_fails K st1 buffer = false ->
      read_ret (dev_read K st1 buffer len) = 0
      /\ firstn 300 (read_buffer (dev_read K st1 buffer len))
         = load (message st1) 300)
  /\ (copy_out_fails K st1 buffer = true ->
      read_ret (dev_read K st1 buffer len) = - EFAULT
      /\ read_state (dev_read K st1 buffer len) = st1)
  /\ (copy_in_fails plain_kernel loaded (xs 300) 300 = false
      /\ copy_out_fails plain_kernel p1 (repeat x00 300) = false
      /\ read_ret (dev_read plain_kernel p1 (repeat x00 300) 300) = 0)
  /\ (copy_in_fails hardened_kernel loaded (xs 300) 300 = true
      /\ snd (dev_write hardened_kernel loaded (xs 300) 300) = 300
      /\ dev_read hardened_kernel h1 (repeat x00 300) 300
         = (h1, repeat x00 300, - EFAULT)).
Proof.
  intros st1 p1 h1.
  assert (S : messageSize st1 = 300).
  { unfold st1. rewrite dev_write_eq. reflexivity. }
  assert (Hs : is_short (messageSize st1)).
  { rewrite S. unfold is_short. lia. }
  split; [exact S |].
  split; [rewrite S; reflexivity |].
  split; [| split; [| split]].
  - intros Hc. split.
    + rewrite (dev_read_ok K st1 buffer len Hs Hc). reflexivity.
    + pose proof (dev_read_delivers K st1 buffer len Hs Hc) as D.
      rewrite S in D. exact D.
  - intros Hc. rewrite (dev_read_fault K st1 buffer len Hs Hc).
    split; reflexivity.
  - vm_compute. repeat split.
  - vm_compute. repeat split.
Qed.

(** C1.  [dev_write] with 300 bytes and [len = 300]: the value returned is
    300 and [messageSize] becomes 300 on every kernel, so neither is capped
    at 256; [copy_from_user] is asked for all 300 bytes, and on a kernel
    that does not check the object size the bytes at offsets 256 to 299,
    behind the array, are overwritten. *)
Theorem dev_write_300_not_capped (K : uaccess) (st : driver) :
  snd (dev_write K st (xs 300) 300) = 300
  /\ messageSize (fst (dev_write K st (xs 300) 300)) = 300
  /\ message (fst (dev_write K st (xs 300) 300))
     = fst (copy_from_user K (message st) (xs 300) 300)
  /\ message (fst (dev_write plain_kernel loaded (xs 300) 300)) 256 = x78
  /\ message (fst (dev_write plain_kernel loaded (xs 300) 300)) 299 = x78.
Proof.
  rewrite dev_write_eq. cbn [fst snd message messageSize].
  repeat split; vm_compute; reflexivity.
Qed.

(** C2.  On every kernel a state with [messageSize = 300] is reached from
    the loaded module by an open and one write of 300 bytes, and a state
    with a negative [messageSize] by an open and one write with
    [len = 40000]: the bound 0 <= messageSize <= 256 is not an invariant. *)
Theorem messageSize_leaves_range (K : uaccess) :
  (exists s, reachable K s /\ messageSize (drv s) = 300
             /\ ~ (0 <= messageSize (drv s) <= MESSAGE_CAPACITY))
  /\ (exists s, reachable K s /\ messageSize (drv s) = -25536
                /\ ~ (0 <= messageSize (drv s) <= MESSAGE_CAPACITY)).
Proof.
  assert (R1 : reachable K
                 {| drv := {| message := zeroed; messageSize := 0;
                              ioMutex := true |};
                    opened := [0%nat]; acquirer := Some 0%nat |}).
  { eapply reach_step; [apply reach_boot |].
    apply (vfs_open_ok K booted 0%nat); [intros [] | reflexivity]. }
  split.
  - eexists. split; [| split].
    + eapply reach_step; [exact R1 |].
      apply (vfs_write K _ 0%nat (xs 300) 300);
        [left; reflexivity | apply dev_write_eq].
    + reflexivity.
    + cbn. unfold MESSAGE_CAPACITY. vm_compute. intros [_ H]. apply H.
      reflexivity.
  - eexists. split; [| split].
    + eapply reach_step; [exact R1 |].
      apply (vfs_write K _ 0%nat (xs 8) 40000);
        [left; reflexivity | apply dev_write_eq].
    + reflexivity.
    + cbn. vm_compute. intros [H _]. apply H. reflexivity.
Qed.

(** C6.  The value [dev_write] returns is [len] whatever [copy_from_user]
    reported.  With two readable bytes behind the caller's pointer and
    [len = 5] the copy-in leaves bytes uncopied, and the call returns 5,
    the value a complete write of five bytes returns. *)
Theorem dev_write_fault_returns_len :
  (forall (K : uaccess) (st : driver) (buffer : list byte) (len : Z),
      snd (dev_write K st buffer len) = to_ssize_t len)
  /\ copy_in_fails plain_kernel loaded [x61; x62] 5 = true
  /\ snd (dev_write plain_kernel loaded [x61; x62] 5) = 5
  /\ copy_in_fails plain_kernel loaded hello 5 = false
  /\ snd (dev_write plain_kernel loaded hello 5) = 5.
Proof.
  split.
  - intros K st buffer len. rewrite dev_write_eq. reflexivity.
  - vm_compute. repeat split.
Qed.

(** * Who moves the gate *)

Lemma dev_read_keeps_gate (K : uaccess) (st : driver) (buffer : list byte)
  (len : Z) :
  ioMutex (read_state (dev_read K st buffer len)) = ioMutex st.
Proof.
  rewrite dev_read_eq. cbv zeta.
  destruct (to_int _ =? 0); reflexivity.
Qed.

Lemma dev_write_keeps_gate (K : uaccess) (st : driver) (buffer : list byte)
  (len : Z) :
  ioMutex (fst (dev_write K st buffer len)) = ioMutex st.
Proof. rewrite dev_write_eq. reflexivity. Qed.

Lemma dev_open_zero_was_free (st st' : driver) :
  dev_open st = (st', 0) -> ioMutex st = false /\ ioMutex st' = true.
Proof.
  intros E. destruct (ioMutex st) eqn:G.
  - rewrite (dev_open_held st G) in E. discriminate.
  - rewrite (dev_open_free st G) in E. inversion E. split; reflexivity.
Qed.

Lemma dev_open_error_was_held (st st' : driver) (r : Z) :
  dev_open st = (st', r) -> r <> 0 -> ioMutex st = true /\ st' = st.
Proof.
  intros E Hr. destruct (ioMutex st) eqn:G.
  - rewrite (dev_open_held st G) in E. inversion E. split; reflexivity.
  - rewrite (dev_open_free st G) in E. inversion E. congruence.
Qed.

Lemma step_keeps_gate_tracking (K : uaccess) (s s' : system) (c : syscall)
  (r : Z) :
  gate_tracks_sessions s -> vfs_step K s c r s' -> gate_tracks_sessions s'.
Proof.
  intros I S. unfold gate_tracks_sessions in *.
  destruct S as [s f st' Hf E | s f st' r Hf E Hr | s f b len st' b' r Hf E
                | s f b len st' r Hf E | s f st' r Hf E | s c Hc Hf];
    cbn [drv opened acquirer].
  - destruct (dev_open_zero_was_free _ _ E) as [G G'].
    rewrite G in I. rewrite G'. destruct I as [O _]. rewrite O.
    exists f. split; reflexivity.
  - destruct (dev_open_error_was_held _ _ _ E Hr) as [_ ->]. exact I.
  - pose proof (dev_read_keeps_gate K (drv s) b len) as G.
    rewrite E in G. cbn in G. rewrite G. exact I.
  - pose proof (dev_write_keeps_gate K (drv s) b len) as G.
    rewrite E in G. cbn in G. rewrite G. exact I.
  - inversion E; subst st' r. cbn [ioMutex mutex_unlock].
    destruct (ioMutex (drv s)).
    + destruct I as (g & O & _). rewrite O in Hf |- *.
      destruct Hf as [-> | []]. cbn.
      destruct (Nat.eq_dec f f) as [_ | N]; [| contradiction].
      split; reflexivity.
    + destruct I as [O _]. rewrite O in Hf. destruct Hf.
  - exact I.
Qed.

Lemma reachable_gate_tracking (K : uaccess) (s : system) :
  reachable K s -> gate_tracks_sessions s.
Proof.
  induction 1 as [| s c r s' _ IH S].
  - split; reflexivity.
  - exact (step_keeps_gate_tracking K s s' c r IH S).
Qed.

(** C9.  In a state reached from the loaded module through the VFS, a call
    that finds [ioMutex] unlocked and leaves it locked is an open that
    returned 0, and its session is recorded as the acquirer; a call that
    finds it locked and leaves it unlocked is a close by the very session
    that acquired it; read and write never change it; and any call other
    than open made by a session that has no open file, a close in
    particular, changes nothing at all. *)
Theorem gate_moves_only_by_open_and_close (K : uaccess) (s s' : system)
  (c : syscall) (r : Z) :
  reachable K s ->
  vfs_step K s c r s' ->
  (ioMutex (drv s) = false -> ioMutex (drv s') = true ->
     exists f, c = sys_open f /\ r = 0 /\ acquirer s' = Some f)
  /\ (ioMutex (drv s) = true -> ioMutex (drv s') = false ->
        exists f, c = sys_close f /\ acquirer s = Some f /\ In f (opened s))
  /\ (is_open_call c = false -> is_close_call c = false ->
        ioMutex (drv s') = ioMutex (drv s))
  /\ (is_open_call c = false -> ~ In (caller c) (opened s) -> s' = s).
Proof.
  intros R S.
  pose proof (reachable_gate_tracking K s R) as I.
  unfold gate_tracks_sessions in I.
  destruct S as [s f st' Hf E | s f st' r Hf E Hr | s f b len st' b' r Hf E
                | s f b len st' r Hf E | s f st' r Hf E | s c Hc Hf];
    cbn [drv opened acquirer is_open_call is_close_call caller].
  - destruct (dev_open_zero_was_free _ _ E) as [G G'].
    split; [| split; [| split]].
    + intros _ _. exists f. repeat split.
    + intros G1 G2. congruence.
    + intros N. discriminate.
    + intros N. discriminate.
  - destruct (dev_open_error_was_held _ _ _ E Hr) as [G ->].
    split; [| split; [| split]].
    + intros G1 G2. congruence.
    + intros G1 G2. congruence.
    + intros N. discriminate.
    + intros N. discriminate.
  - pose proof (dev_read_keeps_gate K (drv s) b len) as G.
    rewrite E in G. cbn in G.
    split; [| split; [| split]].
    + intros G1 G2. congruence.
    + intros G1 G2. congruence.
    + intros _ _. exact G.
    + intros _ N. contradiction.
  - pose proof (dev_write_keeps_gate K (drv s) b len) as G.
    rewrite E in G. cbn in G.
    split; [| split; [| split]].
    + intros G1 G2. congruence.
    + intros G1 G2. congruence.
    + intros _ _. exact G.
    + intros _ N. contradiction.
  - inversion E; subst st' r. cbn [ioMutex mutex_unlock].
    split; [| split; [| split]].
    + intros _ G2. discriminate.
    + intros G _. rewrite G in I. destruct I as (g & O & A).
      rewrite O in Hf. destruct Hf as [-> | []].
      exists f. repeat split; [exact A | rewrite O; left; reflexivity].
    + intros _ N. discriminate.
    + intros _ N. contradiction.
  - split; [| split; [| split]].
    + intros G1 G2. congruence.
    + intros G1 G2. congruence.
    + intros _ _. reflexivity.
    + intros _ _. reflexivity.
Qed.

Lemma gate_moves_only_by_open_and_close_witness :
  let s := {| drv := {| message := zeroed; messageSize := 0; ioMutex := true |};
              opened := [0%nat]; acquirer := Some 0%nat |} in
  let s' := {| drv := {| message := zeroed; messageSize := 0; ioMutex := false |};
               opened := []; acquirer := None |} in
  (ioMutex (drv s) = false -> ioMutex (drv s') = true ->
     exists f, sys_close 0%nat = sys_open f /\ 0 = 0 /\ acquirer s' = Some f)
  /\ (ioMutex (drv s) = true -> ioMutex (drv s') = false ->
        exists f, sys_close 0%nat = sys_close f /\ acquirer s = Some f
                  /\ In f (opened s))
  /\ (is_open_call (sys_close 0%nat) = false ->
      is_close_call (sys_close 0%nat) = false ->
        ioMutex (drv s') = ioMutex (drv s))
  /\ (is_open_call (sys_close 0%nat) = false ->
      ~ In (caller (sys_close 0%nat)) (opened s) -> s' = s).
Proof.
  intros s s'.
  apply (gate_moves_only_by_open_and_close plain_kernel s s' (sys_close 0%nat) 0).
  - apply (reach_step plain_kernel booted (sys_open 0%nat) 0 s);
      [apply reach_boot |].
    apply (vfs_open_ok plain_kernel booted 0%nat); [intros [] | reflexivity].
  - apply (vfs_close plain_kernel s 0%nat); [left; reflexivity | reflexivity].
Defined.

(** The driver itself does not look at who releases: [dev_release] unlocks
    whatever the state.  That a release comes from the acquirer is owed to
    the VFS together with the EBUSY guard of [dev_open]. *)
Remark dev_release_unlocks (st : driver) :
  dev_release st =
    ({| message := message st; messageSize := messageSize st;
        ioMutex := false |}, 0).
Proof. reflexivity. Qed.

(** [messageSize] is a [short] in every reachable state, which is what
    [dev_read_fault_keeps_size] asks of the state. *)
Lemma reachable_messageSize_short (K : uaccess) (s : system) :
  reachable K s -> is_short (messageSize (drv s)).
Proof.
  induction 1 as [| s c r s' _ IH S].
  - cbn. unfold is_short. lia.
  - destruct S as [s f st' Hf E | s f st' r Hf E Hr | s f b len st' b' r Hf E
                  | s f b len st' r Hf E | s f st' r Hf E | s c Hc Hf];
      cbn [drv].
    + destruct (dev_open_zero_was_free _ _ E) as [G _].
      rewrite (dev_open_free _ G) in E. inversion E. exact IH.
    + destruct (dev_open_error_was_held _ _ _ E Hr) as [_ ->]. exact IH.
    + rewrite dev_read_eq in E. cbv zeta in E.
      destruct (to_int _ =? 0); inversion E; [| exact IH].
      cbn. unfold is_short. lia.
    + rewrite dev_write_eq in E. inversion E. apply to_short_is_short.
    + inversion E. exact IH.
    + exact IH.
Qed.

(** On the hardened kernel the 300-byte write of C1 stores nothing at all,
    is still answered with 300, and leaves [messageSize = 300], so that the
    read after it fails with -EFAULT. *)
Remark hardened_write_300 :
  let w := dev_write hardened_kernel loaded (xs 300) 300 in
  copy_in_fails hardened_kernel loaded (xs 300) 300 = true
  /\ snd w = 300
  /\ messageSize (fst w) = 300
  /\ load (message (fst w)) 300 = repeat x00 300
  /\ read_ret (dev_read hardened_kernel (fst w) (xs 300) 300) = - EFAULT.
Proof. vm_compute. repeat split. Qed.

(** * More on the message slot *)

(** X1.  A read of an empty slot ([messageSize = 0], as right after the
    module is loaded) returns 0, leaves the caller's buffer as it was,
    even one with no mapped byte, and leaves the driver state as it was. *)
Theorem dev_read_empty_slot (K : uaccess) (st : driver) (buffer : list byte)
  (len : Z) :
  messageSize st = 0 ->
  dev_read K st buffer len = (st, buffer, 0).
Proof.
  intros E. rewrite dev_read_eq, E. change (to_ulong 0) with 0.
  rewrite copy_to_user_nothing. cbn.
  destruct st as [m n g]. cbn in E. subst n. reflexivity.
Qed.

Lemma dev_read_empty_slot_witness :
  dev_read plain_kernel loaded [] 8 = (loaded, [], 0).
Proof. apply (dev_read_empty_slot plain_kernel loaded [] 8). reflexivity. Defined.

(** X2.  All a read can do: it returns 0 and leaves [messageSize = 0], or
    it returns -EFAULT and leaves the driver state as it was; it never
    returns a byte count, never changes [message] or [ioMutex], and its
    outcome does not depend on [len]. *)
Theorem dev_read_outcomes (K : uaccess) (st : driver) (buffer : list byte)
  (len : Z) :
  (read_ret (dev_read K st buffer len) = 0
     /\ messageSize (read_state (dev_read K st buffer len)) = 0
   \/ read_ret (dev_read K st buffer len) = - EFAULT
     /\ read_state (dev_read K st buffer len) = st)
  /\ message (read_state (dev_read K st buffer len)) = message st
  /\ ioMutex (read_state (dev_read K st buffer len)) = ioMutex st
  /\ (forall len', dev_read K st buffer len' = dev_read K st buffer len).
Proof.
  split; [| split; [| split]].
  - rewrite dev_read_eq. cbv zeta.
    destruct (to_int _ =? 0); [left | right]; split; reflexivity.
  - rewrite dev_read_eq. cbv zeta. destruct (to_int _ =? 0); reflexivity.
  - apply dev_read_keeps_gate.
  - intros len'. rewrite !dev_read_eq. reflexivity.
Qed.

(** X3.  A write with [len = 0] returns 0 and empties the slot, whatever it
    held: the read that follows returns 0 and hands nothing to the
    caller. *)
Theorem dev_write_nothing_empties (K : uaccess) (st : driver)
  (buffer buffer2 : list byte) (len2 : Z) :
  snd (dev_write K st buffer 0) = 0
  /\ messageSize (fst (dev_write K st buffer 0)) = 0
  /\ dev_read K (fst (dev_write K st buffer 0)) buffer2 len2
     = (fst (dev_write K st buffer 0), buffer2, 0).
Proof.
  split; [| split].
  - rewrite dev_write_eq. reflexivity.
  - rewrite dev_write_eq. reflexivity.
  - apply dev_read_empty_slot. rewrite dev_write_eq. reflexivity.
Qed.

(** X4.  [messageSize] after a write is [len] exactly when [len] is below
    32768: a [short] holds no more. *)
Theorem dev_write_size_exact_iff (K : uaccess) (st : driver)
  (buffer : list byte) (len : Z) :
  0 <= len ->
  (messageSize (fst (dev_write K st buffer len)) = len <-> len < 2 ^ 15).
Proof.
  intros Hl. rewrite dev_write_eq. cbn [fst messageSize]. split.
  - intros E. pose proof (to_short_is_short len) as S.
    rewrite E in S. unfold is_short in S. lia.
  - intros H. apply to_short_id. unfold is_short. lia.
Qed.

Lemma dev_write_size_exact_iff_witness :
  messageSize (fst (dev_write plain_kernel loaded hello 5)) = 5 <-> 5 < 2 ^ 15.
Proof. apply (dev_write_size_exact_iff plain_kernel loaded hello 5). lia. Defined.

Lemma to_short_upper_half (len : Z) :
  2 ^ 15 <= len < 2 ^ 16 -> to_short len = len - 2 ^ 16.
Proof.
  intros H. unfold to_short, to_signed.
  change (2 ^ (16 - 1)) with 32768. change (2 ^ 16) with 65536.
  change (2 ^ 15) with 32768 in H. change (2 ^ 16) with 65536 in H.
  replace (len + 32768) with (len - 32768 + 1 * 65536) by lia.
  rewrite Z.mod_add by lia. rewrite Z.mod_small by lia. lia.
Qed.

(** X5.  After a write with 32768 <= len < 65536, [messageSize] is the
    negative number [len - 65536], and every read from then on returns
    -EFAULT, touching neither the caller's buffer nor the driver state:
    the slot stays unreadable until another write. *)
Theorem dev_write_large_blocks_reads (K : uaccess) (st : driver)
  (buffer buffer2 : list byte) (len len2 : Z) :
  2 ^ 15 <= len < 2 ^ 16 ->
  messageSize (fst (dev_write K st buffer len)) = len - 2 ^ 16
  /\ dev_read K (fst (dev_write K st buffer len)) buffer2 len2
     = (fst (dev_write K st buffer len), buffer2, - EFAULT).
Proof.
  intros H.
  assert (S : messageSize (fst (dev_write K st buffer len)) = len - 2 ^ 16).
  { rewrite dev_write_eq. cbn [fst messageSize]. apply to_short_upper_half, H. }
  split; [exact S |].
  set (st1 := fst (dev_write K st buffer len)) in *.
  rewrite dev_read_eq, S. cbv zeta.
  rewrite to_ulong_negative by lia.
  rewrite copy_to_user_refused by (unfold INT_MAX; lia).
  cbn [fst snd]. rewrite to_int_of_wrapped_short by lia.
  destruct (Z.eqb_spec (len - 2 ^ 16) 0) as [Z0 | _]; [lia | reflexivity].
Qed.

Lemma dev_write_large_blocks_reads_witness :
  messageSize (fst (dev_write plain_kernel loaded (xs 8) 40000))
  = 40000 - 2 ^ 16
  /\ dev_read plain_kernel (fst (dev_write plain_kernel loaded (xs 8) 40000))
       (xs 4) 4
     = (fst (dev_write plain_kernel loaded (xs 8) 40000), xs 4, - EFAULT).
Proof.
  apply (dev_write_large_blocks_reads plain_kernel loaded (xs 8) (xs 4) 40000 4).
  lia.
Defined.

(** X7.  A read that faults loses nothing: after a message of at most 256
    bytes was written whole, a read into a buffer the copy cannot fill
    returns -EFAULT, and the next read, into a buffer it can fill,
    delivers the message. *)
Theorem dev_read_fault_then_retry (K : uaccess) (st : driver)
  (m rest bad good : list byte) (len1 len2 : Z) :
  Z.of_nat (length m) <= MESSAGE_CAPACITY ->
  copy_in_fails K st (m ++ rest) (Z.of_nat (length m)) = false ->
  copy_out_fails K
    (fst (dev_write K st (m ++ rest) (Z.of_nat (length m)))) bad = true ->
  copy_out_fails K
    (fst (dev_write K st (m ++ rest) (Z.of_nat (length m)))) good = false ->
  let st1 := fst (dev_write K st (m ++ rest) (Z.of_nat (length m))) in
  let failed := dev_read K st1 bad len1 in
  read_ret failed = - EFAULT
  /\ read_ret (dev_read K (read_state failed) good len2) = 0
  /\ firstn (length m) (read_buffer (dev_read K (read_state failed) good len2))
     = m.
Proof.
  intros Hm Hin Hbad Hgood st1 failed.
  fold st1 in Hbad, Hgood.
  assert (Hs : is_short (messageSize st1)).
  { unfold st1. rewrite dev_write_eq. apply to_short_is_short. }
  unfold failed. rewrite (dev_read_fault K st1 bad len1 Hs Hbad).
  unfold read_ret at 1. unfold read_state. cbn [fst snd].
  split; [reflexivity |].
  destruct (write_read_bytes K st m rest good len2 Hm Hin Hgood)
    as (E & D & _).
  fold st1 in E, D. split; [| exact D].
  rewrite E. reflexivity.
Qed.

Lemma dev_read_fault_then_retry_witness :
  let st1 := fst (dev_write plain_kernel loaded (hello ++ []) 5) in
  let failed := dev_read plain_kernel st1 (xs 2) 2 in
  read_ret failed = - EFAULT
  /\ read_ret (dev_read plain_kernel (read_state failed) (xs 8) 8) = 0
  /\ firstn 5 (read_buffer (dev_read plain_kernel (read_state failed) (xs 8) 8))
     = hello.
Proof.
  apply (dev_read_fault_then_retry plain_kernel loaded hello [] (xs 2) (xs 8)
           2 8).
  - vm_compute. discriminate.
  - vm_compute. reflexivity.
  - vm_compute. reflexivity.
  - vm_compute. reflexivity.
Defined.

(** * More on sessions *)

Lemma step_keeps_size_in_range (K : uaccess) (s s' : system) (c : syscall)
  (r : Z) :
  vfs_step K s c r s' -> len_fits c ->
  0 <= messageSize (drv s) <= MESSAGE_CAPACITY ->
  0 <= messageSize (drv s') <= MESSAGE_CAPACITY.
Proof.
  intros S F I.
  destruct S as [s f st' Hf E | s f st' r Hf E Hr | s f b len st' b' r Hf E
                | s f b len st' r Hf E | s f st' r Hf E | s c Hc Hf];
    cbn [drv].
  - destruct (dev_open_zero_was_free _ _ E) as [G _].
    rewrite (dev_open_free _ G) in E. inversion E. exact I.
  - destruct (dev_open_error_was_held _ _ _ E Hr) as [_ ->]. exact I.
  - rewrite dev_read_eq in E. cbv zeta in E.
    destruct (to_int _ =? 0); inversion E; [| exact I].
    cbn. unfold MESSAGE_CAPACITY. lia.
  - rewrite dev_write_eq in E. inversion E. cbn [messageSize].
    cbn in F. unfold MESSAGE_CAPACITY in *.
    rewrite to_short_id by (unfold is_short; lia). exact F.
  - inversion E. exact I.
  - exact I.
Qed.

Lemma run_keeps_size_in_range (K : uaccess) (s s' : system)
  (cs : list syscall) :
  vfs_run K s cs s' -> Forall len_fits cs ->
  0 <= messageSize (drv s) <= MESSAGE_CAPACITY ->
  0 <= messageSize (drv s') <= MESSAGE_CAPACITY.
Proof.
  induction 1 as [s | s c r s1 cs s2 S _ IH]; intros F I; [exact I |].
  inversion F as [| c' cs' Fc Fcs]; subst.
  apply IH; [exact Fcs |].
  exact (step_keeps_size_in_range K s s1 c r S Fc I).
Qed.

(** X8.  As long as no write is made with a [len] above 256, [messageSize]
    stays between 0 and 256 through every run of opens, reads, writes and
    closes that starts at the freshly loaded module. *)
Theorem size_in_range_while_len_fits (K : uaccess) (cs : list syscall)
  (s : system) :
  vfs_run K booted cs s ->
  Forall len_fits cs ->
  0 <= messageSize (drv s) <= MESSAGE_CAPACITY.
Proof.
  intros R F. apply (run_keeps_size_in_range K booted s cs R F).
  cbn. unfold MESSAGE_CAPACITY. lia.
Qed.

Lemma size_in_range_while_len_fits_witness :
  0 <= messageSize (drv
         {| drv := fst (dev_write plain_kernel (fst (dev_open loaded)) hello 5);
            opened := [0%nat]; acquirer := Some 0%nat |})
    <= MESSAGE_CAPACITY.
Proof.
  apply (size_in_range_while_len_fits plain_kernel
           [sys_open 0%nat; sys_write 0%nat hello 5]).
  - eapply run_call.
    + apply (vfs_open_ok plain_kernel booted 0%nat); [intros [] | reflexivity].
    + eapply run_call.
      * apply (vfs_write plain_kernel _ 0%nat hello 5);
          [left; reflexivity | apply surjective_pairing].
      * apply run_done.
  - repeat constructor; cbn; unfold MESSAGE_CAPACITY; lia.
Defined.

(** X9.  At most one session has the device open at any time, and
    [ioMutex] is locked exactly while one has. *)
Theorem at_most_one_session (K : uaccess) (s : system) :
  reachable K s ->
  (length (opened s) <= 1)%nat
  /\ (ioMutex (drv s) = true <-> opened s <> []).
Proof.
  intros R. pose proof (reachable_gate_tracking K s R) as I.
  unfold gate_tracks_sessions in I.
  destruct (ioMutex (drv s)).
  - destruct I as (f & O & _). rewrite O. cbn. split; [lia |].
    split; [intros _; discriminate | reflexivity].
  - destruct I as [O _]. rewrite O. cbn. split; [lia |].
    split; [discriminate | intros N; contradiction].
Qed.

Lemma at_most_one_session_witness :
  let s := {| drv := fst (dev_write plain_kernel (fst (dev_open loaded)) hello 5);
              opened := [0%nat]; acquirer := Some 0%nat |} in
  (length (opened s) <= 1)%nat
  /\ (ioMutex (drv s) = true <-> opened s <> []).
Proof.
  intros s.
  apply (at_most_one_session plain_kernel s).
  apply (reach_step plain_kernel
           {| drv := fst (dev_open loaded); opened := [0%nat];
              acquirer := Some 0%nat |}
           (sys_write 0%nat hello 5) 5 s).
  - apply (reach_step plain_kernel booted (sys_open 0%nat) 0);
      [apply reach_boot |].
    apply (vfs_open_ok plain_kernel booted 0%nat); [intros [] | reflexivity].
  - apply (vfs_write plain_kernel
             {| drv := fst (dev_open loaded); opened := [0%nat];
                acquirer := Some 0%nat |} 0%nat hello 5 (drv s) 5);
      [left; reflexivity | reflexivity].
Defined.

(** X10.  While a session has the device open, an open by any other
    session returns -EBUSY and changes nothing: neither the driver state
    nor who holds the device. *)
Theorem open_while_held_is_busy (K : uaccess) (s s' : system) (g : session)
  (r : Z) :
  reachable K s ->
  opened s <> [] ->
  vfs_step K s (sys_open g) r s' ->
  r = - EBUSY /\ s' = s.
Proof.
  intros R O S.
  destruct (at_most_one_session K s R) as [_ [_ G]]. specialize (G O).
  pose proof (dev_open_held (drv s) G) as B.
  inversion S as [s0 f st' Hf E | s0 f st' r0 Hf E Hr | | | | s0 c Hc Hf]; subst.
  - rewrite B in E. discriminate.
  - rewrite B in E. inversion E; subst. split; [reflexivity |].
    destruct s; reflexivity.
  - discriminate.
Qed.

Lemma open_while_held_is_busy_witness :
  let s := {| drv := {| message := zeroed; messageSize := 0; ioMutex := true |};
              opened := [0%nat]; acquirer := Some 0%nat |} in
  - EBUSY = - EBUSY /\ s = s.
Proof.
  intros s.
  apply (open_while_held_is_busy plain_kernel s s 1%nat (- EBUSY)).
  - apply (reach_step plain_kernel booted (sys_open 0%nat) 0 s);
      [apply reach_boot |].
    apply (vfs_open_ok plain_kernel booted 0%nat); [intros [] | reflexivity].
  - discriminate.
  - apply (vfs_open_err plain_kernel s 1%nat (drv s) (- EBUSY)).
    + cbn. intros [H | []]. discriminate.
    + reflexivity.
    + discriminate.
Defined.

(** X11.  Once the session that has the device open closes it, the next
    open, by whichever session, returns 0 and that session holds the
    device alone. *)
Theorem open_after_close_succeeds (K : uaccess) (s s1 s2 : system)
  (f g : session) (r r' : Z) :
  reachable K s ->
  In f (opened s) ->
  vfs_step K s (sys_close f) r s1 ->
  vfs_step K s1 (sys_open g) r' s2 ->
  r = 0 /\ r' = 0 /\ opened s2 = [g] /\ acquirer s2 = Some g
  /\ ioMutex (drv s2) = true.
Proof.
  intros R Hin S1 S2.
  assert (R1 : reachable K s1) by exact (reach_step K s (sys_close f) r s1 R S1).
  pose proof (reachable_gate_tracking K s1 R1) as I1.
  unfold gate_tracks_sessions in I1.
  assert (Hr : r = 0 /\ ioMutex (drv s1) = false).
  { inversion S1 as [ | | | | s0 f0 st' r0 Hf E | s0 c Hc Hf]; subst.
    - inversion E. split; reflexivity.
    - cbn in Hf. contradiction. }
  destruct Hr as [-> G1]. rewrite G1 in I1. destruct I1 as [O1 _].
  pose proof (dev_open_free (drv s1) G1) as F.
  inversion S2 as [s0 f0 st' Hf E | s0 f0 st' r0 Hf E Hr0 | | | | s0 c Hc Hf];
    subst.
  - rewrite F in E. inversion E; subst. cbn. rewrite O1.
    repeat split.
  - rewrite F in E. inversion E; subst. contradiction.
  - discriminate.
Qed.

Lemma open_after_close_succeeds_witness :
  let s2 := {| drv := {| message := zeroed; messageSize := 0; ioMutex := true |};
               opened := [1%nat]; acquirer := Some 1%nat |} in
  0 = 0 /\ 0 = 0 /\ opened s2 = [1%nat] /\ acquirer s2 = Some 1%nat
  /\ ioMutex (drv s2) = true.
Proof.
  intros s2.
  apply (open_after_close_succeeds plain_kernel
           {| drv := {| message := zeroed; messageSize := 0; ioMutex := true |};
              opened := [0%nat]; acquirer := Some 0%nat |}
           {| drv := {| message := zeroed; messageSize := 0; ioMutex := false |};
              opened := []; acquirer := None |}
           s2 0%nat 1%nat 0 0).
  - eapply reach_step; [apply reach_boot |].
    apply (vfs_open_ok plain_kernel booted 0%nat); [intros [] | reflexivity].
  - left. reflexivity.
  - apply (vfs_close plain_kernel
             {| drv := {| message := zeroed; messageSize := 0;
                          ioMutex := true |};
                opened := [0%nat]; acquirer := Some 0%nat |} 0%nat);
      [left; reflexivity | reflexivity].
  - apply (vfs_open_ok plain_kernel
             {| drv := {| message := zeroed; messageSize := 0;
                          ioMutex := false |};
                opened := []; acquirer := None |} 1%nat);
      [intros [] | reflexivity].
Defined.

(** * Loading and unloading the module *)

Lemma PTR_ERR_of_error (p : Z) :
  is_pointer p -> IS_ERR p = true ->
  to_int (PTR_ERR p) = p - 2 ^ 64 /\ - MAX_ERRNO <= p - 2 ^ 64 < 0.
Proof.
  unfold is_pointer, IS_ERR, PTR_ERR, MAX_ERRNO. intros R E.
  rewrite to_ulong_nonneg in E by exact R. apply Z.leb_le in E.
  assert (S : to_signed 64 p = p - 2 ^ 64).
  { unfold to_signed. change (2 ^ (64 - 1)) with (2 ^ 63).
    replace (p + 2 ^ 63) with (p - 2 ^ 63 + 1 * 2 ^ 64) by lia.
    rewrite Z.mod_add by lia. rewrite Z.mod_small by lia. lia. }
  rewrite S. split; [apply to_int_id |]; lia.
Qed.

Lemma remove_fresh_head (x : Z) (l : list Z) :
  ~ In x l -> remove Z.eq_dec x (x :: l) = l.
Proof.
  intros N. cbn. destruct (Z.eq_dec x x) as [_ | C]; [| contradiction].
  apply notin_remove. exact N.
Qed.

Lemma is_in_head (x : Z) (l : list Z) : is_in x (x :: l) = true.
Proof.
  unfold is_in. destruct (in_dec Z.eq_dec x (x :: l)) as [_ | N];
    [reflexivity |].
  exfalso. apply N. left. reflexivity.
Qed.

Lemma is_in_fresh (x : Z) (l : list Z) : ~ In x l -> is_in x l = false.
Proof.
  intros N. unfold is_in. destruct (in_dec Z.eq_dec x l); [contradiction |].
  reflexivity.
Qed.

(** One call at a time. *)
Lemma apply_register_chrdev (r : registry) (name : string) (ret : Z) :
  0 <= ret ->
  kernel_apply r (k_register_chrdev 0 name ret) =
    {| chrdevs := ret :: chrdevs r; classes := classes r;
       devices := devices r; stray := stray r |}.
Proof.
  intros H. cbn. rewrite (proj2 (Z.ltb_ge _ _) H). reflexivity.
Qed.

Lemma apply_unregister_chrdev (C : list Z) (D : list (Z * Z))
  (S : list kcall) (l : list Z) (x : Z) (name : string) :
  ~ In x l ->
  kernel_apply {| chrdevs := x :: l; classes := C; devices := D; stray := S |}
    (k_unregister_chrdev x name) =
    {| chrdevs := l; classes := C; devices := D; stray := S |}.
Proof.
  intros N. cbn [kernel_apply chrdevs classes devices stray].
  rewrite is_in_head, remove_fresh_head by exact N. reflexivity.
Qed.

Lemma apply_class_create (r : registry) (name : string) (ret : Z) :
  kernel_apply r (k_class_create name ret) =
    if IS_ERR ret then r
    else {| chrdevs := chrdevs r; classes := ret :: classes r;
            devices := devices r; stray := stray r |}.
Proof. reflexivity. Qed.

Lemma release_class_head (M : list Z) (D : list (Z * Z)) (S : list kcall)
  (l : list Z) (x : Z) (c : kcall) :
  ~ In x l ->
  release_class {| chrdevs := M; classes := x :: l; devices := D; stray := S |}
    c x =
    {| chrdevs := M; classes := l; devices := D; stray := S |}.
Proof.
  intros N. unfold release_class. cbn [chrdevs classes devices stray].
  rewrite is_in_head, remove_fresh_head by exact N. reflexivity.
Qed.

Lemma release_class_absent (r : registry) (x : Z) (c : kcall) :
  ~ In x (classes r) ->
  release_class r c x =
    {| chrdevs := chrdevs r; classes := classes r; devices := devices r;
       stray := stray r ++ [c] |}.
Proof.
  intros N. unfold release_class. rewrite is_in_fresh by exact N. reflexivity.
Qed.

Lemma apply_class_destroy (r : registry) (cls : Z) :
  cls <> 0 -> IS_ERR cls = false ->
  kernel_apply r (k_class_destroy cls) = release_class r (k_class_destroy cls) cls.
Proof.
  intros N E. cbn [kernel_apply]. unfold IS_ERR_OR_NULL.
  rewrite E, (proj2 (Z.eqb_neq _ _) N). reflexivity.
Qed.

Lemma apply_device_create (r : registry) (cls devt : Z) (name : string)
  (ret : Z) :
  kernel_apply r (k_device_create cls devt name ret) =
    if IS_ERR ret then r
    else {| chrdevs := chrdevs r; classes := classes r;
            devices := (cls, devt) :: devices r; stray := stray r |}.
Proof. reflexivity. Qed.

Lemma apply_device_destroy (M C : list Z) (S : list kcall)
  (l : list (Z * Z)) (cls devt : Z) :
  ~ In (cls, devt) l ->
  kernel_apply
    {| chrdevs := M; classes := C; devices := (cls, devt) :: l; stray := S |}
    (k_device_destroy cls devt) =
    {| chrdevs := M; classes := C; devices := l; stray := S |}.
Proof.
  intros N. cbn [kernel_apply chrdevs classes devices stray remove].
  destruct (devt_eq_dec (cls, devt) (cls, devt)) as [_ | X]; [| contradiction].
  rewrite notin_remove by exact N. reflexivity.
Qed.

Lemma replay_cons (r : registry) (c : kcall) (cs : list kcall) :
  replay r (c :: cs) = replay (kernel_apply r c) cs.
Proof. reflexivity. Qed.

Lemma replay_nil (r : registry) : replay r [] = r.
Proof. reflexivity. Qed.

(** X12.  [mod_init] returns 0 exactly when the major number, the class and
    the device were all obtained.  Otherwise it returns the error of the
    first step that failed: the negative value [register_chrdev] returned,
    or the errno carried by the ERR_PTR of [class_create] or
    [device_create], a value from -4095 to -1. *)
Theorem mod_init_returns (A : kernel_answers) (m : module_state) :
  is_pointer (class_create_ret A) ->
  is_pointer (device_create_ret A) ->
  let major := register_chrdev_ret A in
  let cls := class_create_ret A in
  let dev := device_create_ret A in
  let r := init_ret (mod_init A m) in
  (r = 0 <-> 0 <= major /\ IS_ERR cls = false /\ IS_ERR dev = false)
  /\ (major < 0 -> r = major)
  /\ (0 <= major -> IS_ERR cls = true ->
      r = cls - 2 ^ 64 /\ - MAX_ERRNO <= r < 0)
  /\ (0 <= major -> IS_ERR cls = false -> IS_ERR dev = true ->
      r = dev - 2 ^ 64 /\ - MAX_ERRNO <= r < 0).
Proof.
  intros Pc Pd major cls dev r.
  unfold r, mod_init, init_ret. fold major cls dev.
  destruct (Z.ltb_spec major 0) as [Hm | Hm]; cbn [snd].
  - intuition (try lia; try congruence).
  - destruct (IS_ERR cls) eqn:Ec; cbn [snd].
    + destruct (PTR_ERR_of_error cls Pc Ec) as [E B].
      intuition (try lia; try congruence).
    + destruct (IS_ERR dev) eqn:Ed; cbn [snd].
      * destruct (PTR_ERR_of_error dev Pd Ed) as [E B].
        intuition (try lia; try congruence).
      * intuition (try lia; try congruence).
Qed.

Lemma mod_init_returns_witness :
  let A := {| register_chrdev_ret := 240; class_create_ret := 2 ^ 64 - 12;
              device_create_ret := 4096 |} in
  let r := init_ret (mod_init A image) in
  (r = 0 <-> 0 <= 240 /\ IS_ERR (2 ^ 64 - 12) = false /\ IS_ERR 4096 = false)
  /\ (240 < 0 -> r = 240)
  /\ (0 <= 240 -> IS_ERR (2 ^ 64 - 12) = true ->
      r = 2 ^ 64 - 12 - 2 ^ 64 /\ - MAX_ERRNO <= r < 0)
  /\ (0 <= 240 -> IS_ERR (2 ^ 64 - 12) = false -> IS_ERR 4096 = true ->
      r = 4096 - 2 ^ 64 /\ - MAX_ERRNO <= r < 0).
Proof.
  intros A.
  apply (mod_init_returns A image); unfold is_pointer; cbn; lia.
Defined.

(** X13.  A [mod_init] that fails leaves nothing behind: what it had
    registered before the failing step is released again, last obtained
    first, so that the kernel holds for the module exactly what it held
    before, and no call named an object that was not registered.  When
    [class_create] fails, the calls end with the release of the major
    number, made while the kernel holds that major; when [device_create]
    fails, they end with [class_destroy] and then [unregister_chrdev],
    made while the kernel holds the major and the class. *)
Theorem mod_init_failure_releases (A : kernel_answers) (m : module_state)
  (r0 : registry) :
  ~ In (register_chrdev_ret A) (chrdevs r0) ->
  ~ In (class_create_ret A) (classes r0) ->
  class_create_ret A <> 0 ->
  init_ret (mod_init A m) <> 0 ->
  let major := register_chrdev_ret A in
  let cls := class_create_ret A in
  let calls := init_calls (mod_init A m) in
  replay r0 calls = r0
  /\ (major < 0 ->
      calls = [k_mutex_init; k_register_chrdev 0 DEVICE_NAME major])
  /\ (0 <= major -> IS_ERR cls = true ->
      exists before,
        calls = before ++ [k_unregister_chrdev major DEVICE_NAME]
        /\ replay r0 before =
             {| chrdevs := major :: chrdevs r0; classes := classes r0;
                devices := devices r0; stray := stray r0 |})
  /\ (0 <= major -> IS_ERR cls = false ->
      exists before,
        calls = before ++ [k_class_destroy cls;
                           k_unregister_chrdev major DEVICE_NAME]
        /\ replay r0 before =
             {| chrdevs := major :: chrdevs r0; classes := cls :: classes r0;
                devices := devices r0; stray := stray r0 |}).
Proof.
  intros Fm Fc Nc Hr major cls calls. revert Hr.
  unfold calls, mod_init, init_ret, init_calls.
  fold major cls. fold major cls in Fm, Fc, Nc.
  set (dev := device_create_ret A) in *.
  destruct r0 as [M C D S]. cbn [chrdevs classes devices stray] in *.
  destruct (Z.ltb_spec major 0) as [Hm | Hm]; cbn [fst snd]; intros Hr.
  - split; [| split; [| split]].
    + rewrite !replay_cons, replay_nil. cbn [kernel_apply].
      rewrite (proj2 (Z.ltb_lt _ _) Hm). reflexivity.
    + intros _. reflexivity.
    + intros H. lia.
    + intros H. lia.
  - destruct (IS_ERR cls) eqn:Ec; cbn [fst snd app] in *.
    + assert (B : replay {| chrdevs := M; classes := C; devices := D;
                            stray := S |}
                    [k_mutex_init; k_register_chrdev 0 DEVICE_NAME major;
                     k_class_create CLASS_NAME cls]
                  = {| chrdevs := major :: M; classes := C; devices := D;
                       stray := S |}).
      { rewrite !replay_cons, replay_nil.
        change (kernel_apply _ k_mutex_init) with
          {| chrdevs := M; classes := C; devices := D; stray := S |}.
        rewrite apply_register_chrdev, apply_class_create, Ec by exact Hm.
        reflexivity. }
      split; [| split; [| split]].
      * change (replay {| chrdevs := M; classes := C; devices := D;
                          stray := S |}
                  ([k_mutex_init; k_register_chrdev 0 DEVICE_NAME major;
                    k_class_create CLASS_NAME cls]
                   ++ [k_unregister_chrdev major DEVICE_NAME])
                = {| chrdevs := M; classes := C; devices := D; stray := S |}).
        unfold replay in *. rewrite fold_left_app, B. cbn [fold_left].
        apply apply_unregister_chrdev. exact Fm.
      * intros H. lia.
      * intros _ _.
        exists [k_mutex_init; k_register_chrdev 0 DEVICE_NAME major;
                k_class_create CLASS_NAME cls].
        split; [reflexivity | exact B].
      * intros _ H. discriminate.
    + destruct (IS_ERR dev) eqn:Ed; cbn [fst snd app] in *; [| contradiction].
      assert (B : replay {| chrdevs := M; classes := C; devices := D;
                            stray := S |}
                    [k_mutex_init; k_register_chrdev 0 DEVICE_NAME major;
                     k_class_create CLASS_NAME cls;
                     k_device_create cls (MKDEV major 0) DEVICE_NAME dev]
                  = {| chrdevs := major :: M; classes := cls :: C;
                       devices := D; stray := S |}).
      { rewrite !replay_cons, replay_nil.
        change (kernel_apply _ k_mutex_init) with
          {| chrdevs := M; classes := C; devices := D; stray := S |}.
        rewrite apply_register_chrdev, apply_class_create, Ec by exact Hm.
        rewrite apply_device_create, Ed. reflexivity. }
      split; [| split; [| split]].
      * change (replay {| chrdevs := M; classes := C; devices := D;
                          stray := S |}
                  ([k_mutex_init; k_register_chrdev 0 DEVICE_NAME major;
                    k_class_create CLASS_NAME cls;
                    k_device_create cls (MKDEV major 0) DEVICE_NAME dev]
                   ++ [k_class_destroy cls;
                       k_unregister_chrdev major DEVICE_NAME])
                = {| chrdevs := M; classes := C; devices := D; stray := S |}).
        unfold replay in *. rewrite fold_left_app, B. cbn [fold_left].
        rewrite apply_class_destroy by assumption.
        rewrite release_class_head by exact Fc.
        apply apply_unregister_chrdev. exact Fm.
      * intros H. lia.
      * intros _ H. discriminate.
      * intros _ _.
        exists [k_mutex_init; k_register_chrdev 0 DEVICE_NAME major;
                k_class_create CLASS_NAME cls;
                k_device_create cls (MKDEV major 0) DEVICE_NAME dev].
        split; [reflexivity | exact B].
Qed.

Lemma mod_init_failure_releases_witness :
  let A := {| register_chrdev_ret := 240; class_create_ret := 4096;
              device_create_ret := 2 ^ 64 - 12 |} in
  let calls := init_calls (mod_init A image) in
  replay nothing_registered calls = nothing_registered
  /\ (240 < 0 ->
      calls = [k_mutex_init; k_register_chrdev 0 DEVICE_NAME 240])
  /\ (0 <= 240 -> IS_ERR 4096 = true ->
      exists before,
        calls = before ++ [k_unregister_chrdev 240 DEVICE_NAME]
        /\ replay nothing_registered before =
             {| chrdevs := 240 :: chrdevs nothing_registered;
                classes := classes nothing_registered;
                devices := devices nothing_registered;
                stray := stray nothing_registered |})
  /\ (0 <= 240 -> IS_ERR 4096 = false ->
      exists before,
        calls = before ++ [k_class_destroy 4096;
                           k_unregister_chrdev 240 DEVICE_NAME]
        /\ replay nothing_registered before =
             {| chrdevs := 240 :: chrdevs nothing_registered;
                classes := 4096 :: classes nothing_registered;
                devices := devices nothing_registered;
                stray := stray nothing_registered |}).
Proof.
  intros A.
  apply (mod_init_failure_releases A image nothing_registered).
  - intros [].
  - intros [].
  - discriminate.
  - vm_compute. discriminate.
Defined.

(** X14.  Load, then unload: after a [mod_init] that returned 0,
    [mod_exit] releases the device, the class and the major number that
    [mod_init] obtained, so that the kernel holds for the module what it
    held before the load.  On the way the class is released twice: the
    [class_destroy] that follows [class_unregister] names a class that is
    no longer registered, and it is the only such call. *)
Theorem mod_exit_undoes_mod_init (A : kernel_answers) (m : module_state)
  (r0 : registry) :
  is_pointer (class_create_ret A) ->
  is_pointer (device_create_ret A) ->
  ~ In (register_chrdev_ret A) (chrdevs r0) ->
  ~ In (class_create_ret A) (classes r0) ->
  ~ In (class_create_ret A, MKDEV (register_chrdev_ret A) 0) (devices r0) ->
  class_create_ret A <> 0 ->
  init_ret (mod_init A m) = 0 ->
  replay r0
    (init_calls (mod_init A m) ++ snd (mod_exit (init_state (mod_init A m))))
  = {| chrdevs := chrdevs r0; classes := classes r0; devices := devices r0;
       stray := stray r0 ++ [k_class_destroy (class_create_ret A)] |}.
Proof.
  intros Pc Pd Fm Fc Fd Nc Hr. revert Hr.
  unfold mod_init, init_ret, init_calls, init_state, mod_exit.
  set (major := register_chrdev_ret A) in *.
  set (cls := class_create_ret A) in *.
  set (dev := device_create_ret A) in *.
  destruct r0 as [M C D S]. cbn [chrdevs classes devices stray] in *.
  destruct (Z.ltb_spec major 0) as [Hm | Hm]; cbn [fst snd]; intros Hr;
    [lia |].
  destruct (IS_ERR cls) eqn:Ec; cbn [fst snd] in *.
  { destruct (PTR_ERR_of_error cls Pc Ec) as [E B]. lia. }
  destruct (IS_ERR dev) eqn:Ed; cbn [fst snd] in *.
  { destruct (PTR_ERR_of_error dev Pd Ed) as [E B]. lia. }
  cbn [app majorNumber openTPUClass].
  rewrite !replay_cons, replay_nil.
  change (kernel_apply _ k_mutex_init) with
    {| chrdevs := M; classes := C; devices := D; stray := S |}.
  rewrite apply_register_chrdev, apply_class_create, Ec by exact Hm.
  rewrite apply_device_create, Ed.
  cbn [chrdevs classes devices stray].
  rewrite apply_device_destroy by exact Fd.
  change (kernel_apply ?r (k_class_unregister cls))
    with (release_class r (k_class_unregister cls) cls).
  rewrite release_class_head by exact Fc.
  rewrite apply_class_destroy by assumption.
  rewrite release_class_absent by exact Fc.
  cbn [chrdevs classes devices stray].
  rewrite apply_unregister_chrdev by exact Fm.
  reflexivity.
Qed.

Lemma mod_exit_undoes_mod_init_witness :
  let A := {| register_chrdev_ret := 240; class_create_ret := 4096;
              device_create_ret := 8192 |} in
  replay nothing_registered
    (init_calls (mod_init A image)
     ++ snd (mod_exit (init_state (mod_init A image))))
  = {| chrdevs := []; classes := []; devices := [];
       stray := [] ++ [k_class_destroy 4096] |}.
Proof.
  intros A.
  apply (mod_exit_undoes_mod_init A image nothing_registered).
  - unfold is_pointer. cbn. lia.
  - unfold is_pointer. cbn. lia.
  - intros [].
  - intros [].
  - intros [].
  - discriminate.
  - vm_compute. reflexivity.
Defined.

(** [mod_init] hands the file operations the state the channel
    properties start from: it runs [mutex_init] and leaves [message] and
    [messageSize] as the image has them. *)
Remark mod_init_channel (A : kernel_answers) :
  channel (init_state (mod_init A image)) = loaded.
Proof.
  unfold mod_init, init_state.
  destruct (register_chrdev_ret A <? 0); [reflexivity |].
  destruct (IS_ERR (class_create_ret A)); [reflexivity |].
  destruct (IS_ERR (device_create_ret A)); reflexivity.
Qed.
